(** * Deployment scaffolding of the tgbot repository

    The repository ships four pieces of infrastructure glue: a Dockerfile,
    a MongoDB bootstrap script ([mongo-init.js]), two image publish
    scripts ([docker-push.sh] and its batch twin) and a post-deploy patch
    script ([fix_api_path.sh]).  Each one is a straight-line program run
    by a host tool (docker build, the mongo shell, bash, cmd.exe, sed).

    Every script is embedded as the sequence of operations it contains;
    the host tool is a small executable interpreter of these operations
    over an explicit state (image configuration, document store, console
    session, container file system). *)

From Stdlib Require Import ZArith NArith Ascii String List Bool Lia.
From stdpp Require Import base option list gmap strings fin_maps.

Local Open Scope string_scope.
Local Open Scope list_scope.

(** ** Characters and text *)

Abbreviation chars := list_ascii_of_string.
Abbreviation text := string_of_list_ascii.

(** The double-quote character. *)
Definition dquote : ascii := ascii_of_nat 34.

(** ASCII upper-casing, the folding behind a case-insensitive compare. *)
Definition upcase (c : ascii) : ascii :=
  let n := nat_of_ascii c in
  if (97 <=? n)%nat && (n <=? 122)%nat then ascii_of_nat (n - 32) else c.

Definition ci_eqb (a b : string) : bool :=
  bool_decide (map upcase (chars a) = map upcase (chars b)).

(** ** Regular expressions as used by [sed] and by bash's [=~]

    Only the constructs that occur in the scripts: literal characters,
    the wildcard [.], a bracket class, a starred single-character atom,
    and the two anchors. *)
Module Regex.

Inductive atom :=
| Lit (c : ascii)
| Dot
| Class (cs : list ascii).

Inductive item :=
| One (a : atom)
| Star (a : atom)
| Eol.

(** [bol] is the leading [^]; [body] is the rest of the pattern. *)
Record regex := { bol : bool; body : list item }.

Definition atom_matches (a : atom) (c : ascii) : bool :=
  match a with
  | Lit c' => bool_decide (c = c')
  | Dot => true
  | Class cs => bool_decide (c ∈ cs)
  end.

(** Length of the match of [re] anchored at the head of [s], the star
    taking as many characters as the rest of the pattern allows. *)
Fixpoint match_here (re : list item) (s : list ascii) {struct re} : option nat :=
  match re with
  | [] => Some 0%nat
  | One a :: re' =>
      match s with
      | c :: s' => if atom_matches a c then S <$> match_here re' s' else None
      | [] => None
      end
  | Star a :: re' =>
      (fix star (s : list ascii) : option nat :=
         match s with
         | c :: s' =>
             if atom_matches a c then
               match star s' with
               | Some n => Some (S n)
               | None => match_here re' s
               end
             else match_here re' s
         | [] => match_here re' []
         end) s
  | Eol :: re' =>
      match s with
      | [] => match_here re' []
      | _ :: _ => None
      end
  end.

(** Does the pattern match at some position of [s]? *)
Fixpoint search_body (re : list item) (s : list ascii) : bool :=
  match match_here re s with
  | Some _ => true
  | None => match s with
            | [] => false
            | _ :: s' => search_body re s'
            end
  end.

Definition search (re : regex) (s : list ascii) : bool :=
  if bol re then bool_decide (is_Some (match_here (body re) s))
  else search_body (body re) s.

(** [sed 's/re/rep/g'] on one line, for a pattern without [^].
    [skip] counts the characters of the current match still to drop;
    [after] records that a match ended right here, where sed does not
    accept an empty match. *)
Fixpoint subst_g (re : list item) (rep : list ascii)
    (s : list ascii) (skip : nat) (after : bool) : list ascii :=
  match skip with
  | S k =>
      match s with
      | [] => []
      | _ :: s' => subst_g re rep s' k true
      end
  | O =>
      match match_here re s with
      | Some (S n) =>
          rep ++ match s with
                 | [] => []
                 | _ :: s' => subst_g re rep s' n true
                 end
      | Some O =>
          (if after then [] else rep) ++
          match s with
          | [] => []
          | c :: s' => c :: subst_g re rep s' 0 false
          end
      | None =>
          match s with
          | [] => []
          | c :: s' => c :: subst_g re rep s' 0 false
          end
      end
  end.

Definition sed_s_g (re : list item) (rep : string) (line : string) : string :=
  text (subst_g re (chars rep) (chars line) 0 false).

(** The pattern text of a basic regular expression made of ordinary
    characters, [.] and [*]. *)
Definition atom_of (c : ascii) : atom :=
  if bool_decide (c = "."%char) then Dot else Lit c.

Fixpoint parse (s : list ascii) : list item :=
  match s with
  | [] => []
  | c :: s' =>
      match s' with
      | "*"%char :: s'' => Star (atom_of c) :: parse s''
      | _ => One (atom_of c) :: parse s'
      end
  end.

End Regex.

(** ** Events a script run leaves on the console and on the docker CLI *)

Inductive event :=
| Echo (msg : string)
| Prompt (msg : string)
| DockerTag (src dst : string)
| DockerPush (ref : string)
| Exit (code : Z)
| ExitB.

(** Commands that change a registry or the local image store. *)
Definition registry_mutating (e : event) : bool :=
  match e with
  | DockerTag _ _ | DockerPush _ => true
  | _ => false
  end.

Definition registry_commands (tr : list event) : list event :=
  filter (fun e => registry_mutating e = true) tr.

(** ** bash's [read]

    [read -p prompt VAR], without [-r] and with the default IFS, takes
    the typed input up to the first newline that no backslash
    protects.  A backslash protects the next character and is itself
    dropped, a backslash before a newline joins the next line, and NUL
    characters are skipped.  The variable gets the line without its
    leading blanks; when the line is one word, the word; when it has
    several, the line without its trailing blanks.  [scan] gives the
    characters with a mark on the protected ones, and tells whether the
    input ended right behind a backslash. *)
Module Bash.

Definition blank (c : ascii) : bool :=
  bool_decide (c = " "%char) || bool_decide (c = "009"%char)
  || bool_decide (c = "010"%char).

Fixpoint scan (s : list ascii) : list (bool * ascii) * bool :=
  match s with
  | [] => ([], false)
  | c :: s' =>
      if bool_decide (c = "092"%char) then
        match s' with
        | [] => ([], true)
        | d :: s'' =>
            if bool_decide (d = "010"%char) then scan s''
            else if bool_decide (d = "000"%char) then ([], true)
            else let r := scan s'' in ((true, d) :: r.1, r.2)
        end
      else if bool_decide (c = "010"%char) then ([], false)
      else if bool_decide (c = "000"%char) then scan s'
      else let r := scan s' in ((false, c) :: r.1, r.2)
  end.

(** A separator: a blank that no backslash protects. *)
Definition sep (it : bool * ascii) : bool := negb it.1 && blank it.2.

Fixpoint drop_while {A} (f : A -> bool) (l : list A) : list A :=
  match l with
  | [] => []
  | x :: l' => if f x then drop_while f l' else l
  end.

Fixpoint take_while {A} (f : A -> bool) (l : list A) : list A :=
  match l with
  | [] => []
  | x :: l' => if f x then x :: take_while f l' else []
  end.

(** The internal byte bash leaves when nothing but a protection mark
    remains. *)
Definition mark_only : string := String "001"%char EmptyString.

(** The value [read] stores when the operator types [typed] and
    presses Enter, and types nothing after that. *)
Definition read (typed : string) : string :=
  let '(buf, trailing) := scan (chars typed ++ ["010"%char]) in
  let rest := drop_while sep buf in
  match rest with
  | [] => if trailing then mark_only else EmptyString
  | _ :: _ =>
      let word := take_while (fun it => negb (sep it)) rest in
      let others := drop_while (fun it => negb (sep it)) rest in
      if forallb sep others
         && negb (trailing && negb (bool_decide (others = [])))
      then text (snd <$> word)
      else if trailing then text (snd <$> rest)
      else
        match drop_while (fun it => blank it.2) (rev rest) with
        | [] => mark_only
        | kept => text (snd <$> rev kept)
        end
  end.

(** The characters 001 and 177 are bash's own quoting bytes and get a
    treatment of their own; the properties below are stated for input
    without them. *)
Definition plain (typed : string) : Prop :=
  ("001"%char ∉ chars typed) ∧ ("127"%char ∉ chars typed).

End Bash.

(** ** docker-push.sh

    The operator's answer is the input typed at the prompt; [read]
    turns it into the value of [CONFIRM]. *)
Module DockerPushSh.

Definition DOCKER_USERNAME : string := "your-username".

(** [^[Yy]$] *)
Definition confirm_re : Regex.regex :=
  {| Regex.bol := true;
     Regex.body := [Regex.One (Regex.Class ["Y"%char; "y"%char]); Regex.Eol] |}.

(** The condition of the [if], without its negation: [CONFIRM]
    matches [^[Yy]$]. *)
Definition confirmed (CONFIRM : string) : bool :=
  Regex.search confirm_re (chars CONFIRM).

Definition script (username : string) (answer : string) : list event :=
  let CONFIRM := Bash.read answer in
  [ Echo ("您的DockerHub用户名是: " +:+ username);
    Prompt "确认继续? [y/N]: " ] ++
  if negb (confirmed CONFIRM) then
    [ Echo "操作取消"; Exit 1 ]
  else
    [ Echo "正在为镜像打标签...";
      DockerTag "tgbot" (username +:+ "/tgbot:latest");
      Echo "正在推送镜像到DockerHub...";
      DockerPush (username +:+ "/tgbot:latest");
      Echo "操作完成!" ].

Definition run (answer : string) : list event := script DOCKER_USERNAME answer.

End DockerPushSh.

(** ** The batch publish script

    [env] is the variable table of the cmd.exe console session.  The
    script has no [setlocal], so its assignments stay in the session
    after it ends.  [set /p] assigns the typed line to the variable and
    leaves the variable as it was when the line is empty. *)
Module DockerPushBat.

Definition DOCKER_USERNAME : string := "diciky".

(** [%VAR%]: an undefined variable expands to nothing in a batch file. *)
Definition expand (env : gmap string string) (var : string) : string :=
  default EmptyString (env !! var).

(** [set VAR=value] *)
Definition set_var (var value : string) (env : gmap string string)
  : gmap string string :=
  <[var := value]> env.

(** [set /p VAR=prompt] *)
Definition set_p (var answer : string) (env : gmap string string)
  : gmap string string :=
  if bool_decide (answer = EmptyString) then env else <[var := answer]> env.

(** [if /i "%CONFIRM%"=="Y"]: the two quoted operands compared without
    regard to case. *)
Definition confirmed (CONFIRM : string) : bool := ci_eqb CONFIRM "Y".

Definition script (username : string) (env : gmap string string)
    (answer : string) : gmap string string * list event :=
  let env := set_var "DOCKER_USERNAME" username env in
  let head :=
    [ Echo "上传Docker镜像到DockerHub";
      Echo ("您的DockerHub用户名是: " +:+ expand env "DOCKER_USERNAME");
      Prompt "确认继续? [Y/N]:" ] in
  let env := set_p "CONFIRM" answer env in
  if negb (confirmed (expand env "CONFIRM")) then
    (env, head ++ [ ExitB ])
  else
    (env,
     head ++
     [ Echo "正在为镜像打标签...";
       DockerTag "tgbot" (expand env "DOCKER_USERNAME" +:+ "/tgbot:latest");
       Echo "正在推送镜像到DockerHub...";
       DockerPush (expand env "DOCKER_USERNAME" +:+ "/tgbot:latest");
       Echo "操作完成!" ]).

Definition run (env : gmap string string) (answer : string)
  : gmap string string * list event :=
  script DOCKER_USERNAME env answer.

(** Two runs, one after the other, in the same console. *)
Definition run_twice (env : gmap string string) (first second : string)
  : list event * list event :=
  let r1 := run env first in
  let r2 := run (fst r1) second in
  (snd r1, snd r2).

End DockerPushBat.

(** ** mongo-init.js and the document store it runs against *)
Module Mongo.

(** Scalar field values of a document.  [VNum] holds an integral JS
    number such as the literal [30], [VDate] a time in milliseconds,
    [VOid] a generated object id. *)
Inductive value :=
| VNull
| VBool (b : bool)
| VNum (n : Z)
| VStr (s : string)
| VDate (ms : Z)
| VOid (n : N).

#[global] Instance value_eq_dec : EqDecision value.
Proof. solve_decision. Defined.

(** A document is a JS object: its fields in the order written. *)
Abbreviation document := (list (string * value)).

Fixpoint field (k : string) (d : document) : option value :=
  match d with
  | [] => None
  | (k', v) :: d' => if bool_decide (k' = k) then Some v else field k d'
  end.

(** The key an index stores for a document; a missing field counts as
    null. *)
Definition key_of (k : string) (d : document) : value :=
  default VNull (field k d).

Record index := { idx_key : string; idx_dir : Z; idx_unique : bool }.

#[global] Instance index_eq_dec : EqDecision index.
Proof. solve_decision. Defined.

Record collection := { docs : list document; indexes : list index }.

(** Every collection is born with the unique index on [_id]. *)
Definition id_index : index :=
  {| idx_key := "_id"; idx_dir := 1; idx_unique := true |}.

Definition new_collection : collection :=
  {| docs := []; indexes := [id_index] |}.

Record account := { acc_pwd : string; acc_roles : list (string * string) }.

Record server := {
  accounts : gmap (string * string) account;
  dbs : gmap string (gmap string collection);
  next_oid : N
}.

Definition fresh : server :=
  {| accounts := ∅; dbs := ∅; next_oid := 0 |}.

Inductive error :=
| UserAlreadyExists (db user : string)
| NamespaceExists (db coll : string)
| DuplicateKey (coll key : string)
| IndexOptionsConflict (coll key : string).

Inductive result (A : Type) :=
| Ok (a : A)
| Throw (e : error).
Arguments Ok {A} a.
Arguments Throw {A} e.

Definition collections (db : string) (s : server) : gmap string collection :=
  default ∅ (dbs s !! db).

Definition find_coll (db coll : string) (s : server) : option collection :=
  collections db s !! coll.

(** A write to a collection that does not exist yet creates it. *)
Definition get_coll (db coll : string) (s : server) : collection :=
  default new_collection (find_coll db coll s).

Definition put_coll (db coll : string) (c : collection) (s : server) : server :=
  {| accounts := accounts s;
     dbs := <[db := <[coll := c]> (collections db s)]> (dbs s);
     next_oid := next_oid s |}.

(** [db.createUser({user, pwd, roles})] *)
Definition createUser (db user pwd : string) (roles : list (string * string))
    (s : server) : result server :=
  match accounts s !! (db, user) with
  | Some _ => Throw (UserAlreadyExists db user)
  | None =>
      Ok {| accounts :=
              <[(db, user) := {| acc_pwd := pwd; acc_roles := roles |}]>
                (accounts s);
            dbs := dbs s;
            next_oid := next_oid s |}
  end.

(** [db.createCollection(name)] *)
Definition createCollection (db name : string) (s : server) : result server :=
  match find_coll db name s with
  | Some _ => Throw (NamespaceExists db name)
  | None => Ok (put_coll db name new_collection s)
  end.

(** Does [d] repeat the key that some document of [ds] has under [k]? *)
Definition clashes (k : string) (d : document) (ds : list document) : bool :=
  bool_decide (key_of k d ∈ key_of k <$> ds).

Fixpoint has_dup (vs : list value) : bool :=
  match vs with
  | [] => false
  | v :: vs' => bool_decide (v ∈ vs') || has_dup vs'
  end.

(** [db.coll.createIndex({key: dir}, {unique})] *)
Definition createIndex (db coll key : string) (dir : Z) (unique : bool)
    (s : server) : result server :=
  let c := get_coll db coll s in
  match List.find (fun ix => bool_decide (idx_key ix = key)) (indexes c) with
  | Some ix =>
      if bool_decide (ix = {| idx_key := key; idx_dir := dir; idx_unique := unique |})
      then Ok (put_coll db coll c s)
      else Throw (IndexOptionsConflict coll key)
  | None =>
      if unique && has_dup (key_of key <$> docs c) then
        Throw (DuplicateKey coll key)
      else
        Ok (put_coll db coll
              {| docs := docs c;
                 indexes := indexes c ++
                   [{| idx_key := key; idx_dir := dir; idx_unique := unique |}] |}
              s)
  end.

(** The first unique index of [c] that [d] would violate. *)
Definition violated (c : collection) (d : document) : option index :=
  List.find (fun ix => idx_unique ix && clashes (idx_key ix) d (docs c))
            (indexes c).

(** [db.coll.insertOne(d)]: a document without [_id] gets a fresh
    object id; the write is refused as a whole when a unique index
    already holds the document's key. *)
Definition insertOne (db coll : string) (d : document) (s : server)
  : result server :=
  let c := get_coll db coll s in
  let '(d, next) :=
    match field "_id" d with
    | Some _ => (d, next_oid s)
    | None => (("_id", VOid (next_oid s)) :: d, N.succ (next_oid s))
    end in
  match violated c d with
  | Some ix => Throw (DuplicateKey coll (idx_key ix))
  | None =>
      Ok {| accounts := accounts s;
            dbs := dbs (put_coll db coll
                          {| docs := docs c ++ [d]; indexes := indexes c |} s);
            next_oid := next |}
  end.

(** *** The script language: the statement forms of mongo-init.js *)

Inductive expr :=
| ELit (v : value)
| ENewDate.

Inductive stmt :=
| GetSiblingDB (name : string)
| CreateUser (user pwd : string) (roles : list (string * string))
| CreateCollection (name : string)
| CreateIndex (coll key : string) (dir : Z) (unique : bool)
| InsertOne (coll : string) (fields : list (string * expr)).

(** The shell: the global variable [db] and the server it talks to. *)
Record shell := { db : string; srv : server }.

(** A shell that has just connected to an empty server. *)
Definition fresh_shell : shell := {| db := "test"; srv := fresh |}.

Definition eval (now : Z) (e : expr) : value :=
  match e with
  | ELit v => v
  | ENewDate => VDate now
  end.

Definition on_server (st : shell) (r : result server) : result shell :=
  match r with
  | Ok s => Ok {| db := db st; srv := s |}
  | Throw e => Throw e
  end.

Definition exec (now : Z) (c : stmt) (st : shell) : result shell :=
  match c with
  | GetSiblingDB name => Ok {| db := name; srv := srv st |}
  | CreateUser user pwd roles =>
      on_server st (createUser (db st) user pwd roles (srv st))
  | CreateCollection name =>
      on_server st (createCollection (db st) name (srv st))
  | CreateIndex coll key dir unique =>
      on_server st (createIndex (db st) coll key dir unique (srv st))
  | InsertOne coll fields =>
      on_server st
        (insertOne (db st) coll (prod_map id (eval now) <$> fields) (srv st))
  end.

(** A run: the statements attempted, the state reached, and the
    exception that stopped the script, if any.  An exception is not
    caught anywhere, so it ends the run at the throwing statement. *)
Record outcome := {
  attempted : list stmt;
  final : shell;
  thrown : option error
}.

Fixpoint run (now : Z) (prog : list stmt) (st : shell) : outcome :=
  match prog with
  | [] => {| attempted := []; final := st; thrown := None |}
  | c :: rest =>
      match exec now c st with
      | Ok st' =>
          let o := run now rest st' in
          {| attempted := c :: attempted o;
             final := final o;
             thrown := thrown o |}
      | Throw e => {| attempted := [c]; final := st; thrown := Some e |}
      end
  end.

Definition mongo_init : list stmt :=
  [ GetSiblingDB "tgbot";
    CreateUser "admin" "465465Daz" [("readWrite", "tgbot")];
    CreateCollection "users";
    CreateCollection "messages";
    CreateCollection "groups";
    CreateCollection "settings";
    CreateIndex "users" "user_id" 1 true;
    CreateIndex "messages" "message_id" 1 false;
    CreateIndex "messages" "chat_id" 1 false;
    CreateIndex "messages" "date" 1 false;
    CreateIndex "groups" "group_id" 1 true;
    InsertOne "settings"
      [ ("_id", ELit (VStr "bot_settings"));
        ("auto_delete_messages", ELit (VBool true));
        ("auto_delete_interval", ELit (VNum 30));
        ("welcome_message", ELit (VStr "欢迎使用Telegram Bot!"));
        ("created_at", ENewDate) ] ].

(** The store after the script ran once against an empty server. *)
Definition bootstrapped (now : Z) : server :=
  srv (final (run now mongo_init fresh_shell)).

(** The collections the insert statements of a script write to. *)
Definition insert_targets (prog : list stmt) : list string :=
  omap (fun c => match c with
                 | InsertOne coll _ => Some coll
                 | _ => None
                 end) prog.

(** The shape of the settings document: the five fields with the
    types of their values. *)
Definition settings_shape (d : document) : Prop :=
  ∃ (b : bool) (n : Z) (w : string) (t : Z),
    d = [ ("_id", VStr "bot_settings");
          ("auto_delete_messages", VBool b);
          ("auto_delete_interval", VNum n);
          ("welcome_message", VStr w);
          ("created_at", VDate t) ].

(** A collection keeps a field unique: the unique index on the field
    is in place and no two documents share its key. *)
Definition keeps_unique (k : string) (c : collection) : Prop :=
  {| idx_key := k; idx_dir := 1; idx_unique := true |} ∈ indexes c ∧
  NoDup (key_of k <$> docs c).

Definition unique_keys (s : server) : Prop :=
  (∃ c, find_coll "tgbot" "users" s = Some c ∧ keeps_unique "user_id" c) ∧
  (∃ c, find_coll "tgbot" "groups" s = Some c ∧ keeps_unique "group_id" c).

(** The store once a call has returned: a call that throws leaves it
    as it was. *)
Definition after (r : result server) (s : server) : server :=
  match r with
  | Ok s' => s'
  | Throw _ => s
  end.

(** The documents held by a collection of the [tgbot] database. *)
Definition stored (coll : string) (s : server) : list document :=
  docs (get_coll "tgbot" coll s).

(** A second run of the script, in a new shell, against the store the
    first run left. *)
Definition rerun (now1 now2 : Z) : outcome :=
  run now2 mongo_init {| db := "test"; srv := bootstrapped now1 |}.

(** An example store: the bootstrapped one after a first user was
    inserted. *)
Definition one_user : server :=
  after (insertOne "tgbot" "users" [("user_id", VNum 7)] (bootstrapped 0))
        (bootstrapped 0).

(** Stores the application can reach: the bootstrapped one, then any
    accepted insert into any collection of any database. *)
Inductive reachable : server -> Prop :=
| reach_boot now : reachable (bootstrapped now)
| reach_insert s dbn coll d s' :
    reachable s -> insertOne dbn coll d s = Ok s' -> reachable s'.

(** *** The script on a server that already holds data *)

(** The account the script creates. *)
Definition admin_account : account :=
  {| acc_pwd := "465465Daz"; acc_roles := [("readWrite", "tgbot")] |}.




(** Example stores: one message stored after the bootstrap; a server
    that held another database and another account before the
    bootstrap. *)
Definition one_message : server :=
  after (insertOne "tgbot" "messages"
           [("_id", VNum 1); ("message_id", VNum 42); ("chat_id", VNum 5)]
           (bootstrapped 0))
        (bootstrapped 0).


End Mongo.

(** ** Dockerfile and the image configuration a build produces *)
Module Dockerfile.

(** A word of an instruction: literal text and variable references. *)
Inductive part :=
| Txt (s : string)
| Ref (name : string).

Inductive instr :=
| FROM (image : string)
| WORKDIR (dir : string)
| ENV (name : string) (v : list part)
| RUN (cmd : string)
| COPY (src dst : string)
| ARG (name : string) (dflt : option string)
| EXPOSE (port : list part)
| CMD (argv : list string).

Record image := {
  env : gmap string string;
  exposed : gset N;
  workdir : string;
  cmd : list string
}.

(** A build stage: the image so far and the ARG variables in scope. *)
Record stage := { img : image; args : gmap string string }.

(** A variable reference reads the environment first, then the build
    arguments; an unset variable expands to nothing. *)
Definition lookup_var (st : stage) (name : string) : string :=
  match env (img st) !! name with
  | Some v => v
  | None => default EmptyString (args st !! name)
  end.

Definition expand (st : stage) (w : list part) : string :=
  foldr (fun p acc =>
           match p with
           | Txt s => s +:+ acc
           | Ref name => lookup_var st name +:+ acc
           end) EmptyString w.

Definition digit (c : ascii) : option N :=
  let n := N_of_ascii c in
  if ((48 <=? n) && (n <=? 57))%N then Some (n - 48)%N else None.

Fixpoint parse_dec (acc : N) (s : list ascii) : option N :=
  match s with
  | [] => Some acc
  | c :: s' =>
      match digit c with
      | Some d => parse_dec (10 * acc + d)%N s'
      | None => None
      end
  end.

(** A port is a decimal number up to 65535.  Protocol suffixes and
    port ranges are left out. *)
Definition parse_port (s : string) : option N :=
  match chars s with
  | [] => None
  | cs =>
      match parse_dec 0 cs with
      | Some n => if (n <=? 65535)%N then Some n else None
      | None => None
      end
  end.

(** One instruction.  [base] is the configuration of the image that
    FROM names, [cli] the [--build-arg] values of the invocation.
    RUN and COPY change the file system only. *)
Definition step (base : image) (cli : gmap string string)
    (i : instr) (st : stage) : option stage :=
  let im := img st in
  match i with
  | FROM _ => Some {| img := base; args := ∅ |}
  | WORKDIR d =>
      Some {| img := {| env := env im; exposed := exposed im;
                        workdir := d; cmd := cmd im |};
              args := args st |}
  | ENV name w =>
      Some {| img := {| env := <[name := expand st w]> (env im);
                        exposed := exposed im;
                        workdir := workdir im; cmd := cmd im |};
              args := args st |}
  | RUN _ => Some st
  | COPY _ _ => Some st
  | ARG name dflt =>
      match cli !! name, dflt with
      | Some v, _ => Some {| img := im; args := <[name := v]> (args st) |}
      | None, Some v => Some {| img := im; args := <[name := v]> (args st) |}
      | None, None => Some st
      end
  | EXPOSE w =>
      match parse_port (expand st w) with
      | Some p =>
          Some {| img := {| env := env im; exposed := {[p]} ∪ exposed im;
                            workdir := workdir im; cmd := cmd im |};
                  args := args st |}
      | None => None
      end
  | CMD argv =>
      Some {| img := {| env := env im; exposed := exposed im;
                        workdir := workdir im; cmd := argv |};
              args := args st |}
  end.

Fixpoint steps (base : image) (cli : gmap string string)
    (file : list instr) (st : stage) : option stage :=
  match file with
  | [] => Some st
  | i :: rest =>
      match step base cli i st with
      | Some st' => steps base cli rest st'
      | None => None
      end
  end.

Definition scratch : image :=
  {| env := ∅; exposed := ∅; workdir := "/"; cmd := [] |}.

Definition build (base : image) (cli : gmap string string)
    (file : list instr) : option image :=
  img <$> steps base cli file {| img := scratch; args := ∅ |}.

Definition dockerfile : list instr :=
  [ FROM "python:3.11-slim";
    WORKDIR "/app";
    ENV "TZ" [Txt "Asia/Shanghai"];
    RUN "ln -snf /usr/share/zoneinfo/$TZ /etc/localtime && echo $TZ > /etc/timezone";
    COPY "requirements.txt" ".";
    RUN "pip install --no-cache-dir -r requirements.txt";
    COPY "." ".";
    RUN "mkdir -p logs";
    ARG "WEB_PORT" (Some "7000");
    ENV "WEB_PORT" [Ref "WEB_PORT"];
    EXPOSE [Ref "WEB_PORT"];
    CMD ["python"; "main.py"] ].

(** [docker build], with or without [--build-arg WEB_PORT=v]. *)
Definition build_args (web_port : option string) : gmap string string :=
  match web_port with
  | Some v => {["WEB_PORT" := v]}
  | None => ∅
  end.

End Dockerfile.

(** ** fix_api_path.sh

    The host runs containers by name; a container is its file system,
    a file the list of its lines.  Here a line is taken byte by byte,
    as sed reads it in a single-byte locale; [FixApiPathText] below
    takes it character by character. *)
Module FixApiPath.

Definition container : string := "tgbot-app".
Definition template : string := "/app/app/templates/base.html".

(** The two sides of the sed command [s/.../.../g], as bash hands them
    to sed: the escaped quotes of the script arrive as plain quotes. *)
Definition search_text : string := "axios.defaults.baseURL = .*".
Definition replacement : string :=
   "axios.defaults.baseURL = " +:+ String dquote (String dquote ";").

Definition search_re : list Regex.item := Regex.parse (chars search_text).

Definition patch_line (line : string) : string :=
  Regex.sed_s_g search_re replacement line.

(** The same substitution on the characters of a line. *)
Definition patch_chars (s : list ascii) : list ascii :=
  Regex.subst_g search_re (chars replacement) s 0 false.

(** [sed -i script file]: a missing file is an error that changes
    nothing. *)
Definition sed_i (path : string) (fs : gmap string (list string))
  : gmap string (list string) :=
  match fs !! path with
  | Some lines => <[path := patch_line <$> lines]> fs
  | None => fs
  end.

(** [docker exec] fails, and the inner commands do not run, when the
    container is not running; the script goes on to its last echo. *)
Definition script (host : gmap string (gmap string (list string)))
  : gmap string (gmap string (list string)) * list event :=
  match host !! container with
  | Some fs =>
      (<[container := sed_i template fs]> host,
       [ Echo "进入tgbot-app容器...";
         Echo "修改app/templates/base.html中的axios配置...";
         Echo "完成修改！";
         Echo "脚本执行完成" ])
  | None =>
      (host, [ Echo "进入tgbot-app容器..."; Echo "脚本执行完成" ])
  end.

(** An example host: the container runs and serves a template that
    sets the base URL to [/api]. *)
Definition example_lines : list string :=
  [ "<script>"; "    axios.defaults.baseURL = '/api';"; "</script>" ].

Definition example_fs : gmap string (list string) :=
  {[ template := example_lines ]}.

Definition example_host : gmap string (gmap string (list string)) :=
  {[ container := example_fs ]}.

End FixApiPath.

(** ** sed on text, as in the container's UTF-8 locale

    In a UTF-8 locale sed matches by character: [.] stands for one
    character, however many bytes encode it.  Here a line of text is
    the list of its characters, each one its Unicode code point. *)
Module CharRegex.

(** A Unicode scalar value: a code point up to 10FFFF outside the
    surrogate range D800 to DFFF. *)
Definition scalar (c : N) : bool :=
  (c <=? 1114111)%N && negb ((55296 <=? c)%N && (c <=? 57343)%N).

Inductive atom :=
| Lit (c : N)
| Dot.

Inductive item :=
| One (a : atom)
| Star (a : atom).

Definition atom_matches (a : atom) (c : N) : bool :=
  match a with
  | Lit c' => bool_decide (c = c')
  | Dot => scalar c
  end.

Fixpoint match_here (re : list item) (s : list N) {struct re} : option nat :=
  match re with
  | [] => Some 0%nat
  | One a :: re' =>
      match s with
      | c :: s' => if atom_matches a c then S <$> match_here re' s' else None
      | [] => None
      end
  | Star a :: re' =>
      (fix star (s : list N) : option nat :=
         match s with
         | c :: s' =>
             if atom_matches a c then
               match star s' with
               | Some n => Some (S n)
               | None => match_here re' s
               end
             else match_here re' s
         | [] => match_here re' []
         end) s
  end.

(** Does the pattern match at some position of [s]? *)
Fixpoint search_body (re : list item) (s : list N) : bool :=
  match match_here re s with
  | Some _ => true
  | None => match s with
            | [] => false
            | _ :: s' => search_body re s'
            end
  end.

(** [sed 's/re/rep/g'] on one line; [skip] and [after] as in
    [Regex.subst_g]. *)
Fixpoint subst_g (re : list item) (rep : list N)
    (s : list N) (skip : nat) (after : bool) : list N :=
  match skip with
  | S k =>
      match s with
      | [] => []
      | _ :: s' => subst_g re rep s' k true
      end
  | O =>
      match match_here re s with
      | Some (S n) =>
          rep ++ match s with
                 | [] => []
                 | _ :: s' => subst_g re rep s' n true
                 end
      | Some O =>
          (if after then [] else rep) ++
          match s with
          | [] => []
          | c :: s' => c :: subst_g re rep s' 0 false
          end
      | None =>
          match s with
          | [] => []
          | c :: s' => c :: subst_g re rep s' 0 false
          end
      end
  end.

(** The code points of an ASCII text. *)
Definition codes (s : string) : list N := N_of_ascii <$> chars s.

(** The pattern text: ordinary characters, [.] (code 46) and [*]
    (code 42). *)
Definition atom_of (c : N) : atom :=
  if bool_decide (c = 46%N) then Dot else Lit c.

Fixpoint parse (s : list N) : list item :=
  match s with
  | [] => []
  | c :: s' =>
      match s' with
      | 42%N :: s'' => Star (atom_of c) :: parse s''
      | _ => One (atom_of c) :: parse s'
      end
  end.

End CharRegex.

(** ** fix_api_path.sh on a text template

    The script as above, with the template a text file: the list of
    its lines, each line the list of its characters. *)
Module FixApiPathText.
Import CharRegex.

Definition container : string := "tgbot-app".
Definition template : string := "/app/app/templates/base.html".

(** The two sides of [s/.../.../g]; 34 is the double quote, 59 the
    semicolon. *)
Definition search_text : list N := codes "axios.defaults.baseURL = .*".
Definition replacement : list N :=
  codes "axios.defaults.baseURL = " ++ [34; 34; 59]%N.

Definition search_re : list item := parse search_text.

Definition patch_line (line : list N) : list N :=
  subst_g search_re replacement line 0 false.

Definition sed_i (path : string) (fs : gmap string (list (list N)))
  : gmap string (list (list N)) :=
  match fs !! path with
  | Some lines => <[path := patch_line <$> lines]> fs
  | None => fs
  end.

Definition script (host : gmap string (gmap string (list (list N))))
  : gmap string (gmap string (list (list N))) * list event :=
  match host !! container with
  | Some fs =>
      (<[container := sed_i template fs]> host,
       [ Echo "进入tgbot-app容器...";
         Echo "修改app/templates/base.html中的axios配置...";
         Echo "完成修改！";
         Echo "脚本执行完成" ])
  | None =>
      (host, [ Echo "进入tgbot-app容器..."; Echo "脚本执行完成" ])
  end.

(** A line of a text file: Unicode scalar values, no newline. *)
Definition text_line (line : list N) : Prop :=
  Forall (fun c => scalar c = true ∧ c ≠ 10%N) line.

(** The text begins with the assignment as the pattern reads it:
    [axios], one character, [defaults], one character, [baseURL = ]. *)
Definition assignment_at (l : list N) : Prop :=
  ∃ x y tail, scalar x = true ∧ scalar y = true ∧
    l = codes "axios" ++ x :: codes "defaults" ++ y :: codes "baseURL = " ++ tail.

(** An example host.  The last line of its template has the
    ideographic full stop, U+3002, where the pattern has its first
    dot. *)
Definition example_lines : list (list N) :=
  [ codes "<script>";
    codes "    axios.defaults.baseURL = '/api';";
    codes "axios" ++ 12290%N :: codes "defaults.baseURL = 1" ].

Definition example_host : gmap string (gmap string (list (list N))) :=
  {[ container := {[ template := example_lines ]} ]}.

(** A host whose template has no base-URL assignment. *)
Definition plain_host : gmap string (gmap string (list (list N))) :=
  {[ container :=
       {[ template := [ codes "<html>"; codes "<body></body>"; codes "</html>" ] ]} ]}.

End FixApiPathText.

(** ** Vocabulary of the publish scripts' description *)

(** An affirmative answer at the prompt: the letter y, in either case. *)
Definition affirmative (answer : string) : bool :=
  bool_decide (answer = "y" ∨ answer = "Y").

(** The two publishing steps: tag the local image [tgbot] as
    [<namespace>/tgbot:latest], then push that tag. *)
Definition publish_steps (namespace : string) : list event :=
  [ DockerTag "tgbot" (namespace +:+ "/tgbot:latest");
    DockerPush (namespace +:+ "/tgbot:latest") ].

(** * Properties *)

(** ** Bootstrap of the document store *)
Section Bootstrap.
Import Mongo.

Lemma boot_completes now :
  attempted (run now mongo_init fresh_shell) = mongo_init ∧
  thrown (run now mongo_init fresh_shell) = None.
Proof. split; vm_compute; reflexivity. Qed.

(** The database the shell was connected to does not matter: the
    script switches to [tgbot] first. *)
Lemma boot_any_db db0 now :
  srv (final (run now mongo_init {| db := db0; srv := fresh |}))
  = bootstrapped now.
Proof. vm_compute. reflexivity. Qed.

Lemma boot_settings now :
  find_coll "tgbot" "settings" (bootstrapped now) =
  Some {| docs :=
            [ [ ("_id", VStr "bot_settings");
                ("auto_delete_messages", VBool true);
                ("auto_delete_interval", VNum 30);
                ("welcome_message", VStr "欢迎使用Telegram Bot!");
                ("created_at", VDate now) ] ];
          indexes := [id_index] |}.
Proof. vm_compute. reflexivity. Qed.

(** C1: run against an empty server, the script completes and leaves
    one database, [tgbot], holding exactly the collections [users],
    [messages], [groups] and [settings]; [settings] holds exactly one
    document, and its [_id] is [bot_settings]. *)
Theorem bootstrap_provisions (now : Z) :
  thrown (run now mongo_init fresh_shell) = None ∧
  dom (dbs (bootstrapped now)) = {["tgbot"]} ∧
  dom (collections "tgbot" (bootstrapped now))
    = {["users"; "messages"; "groups"; "settings"]} ∧
  ∃ d, stored "settings" (bootstrapped now) = [d] ∧
       field "_id" d = Some (VStr "bot_settings").
Proof.
  split; [apply boot_completes|].
  split; [vm_compute; reflexivity|].
  split; [vm_compute; reflexivity|].
  eexists. split; vm_compute; reflexivity.
Qed.

(** C5: the seeded settings document has the fixed id [bot_settings],
    a boolean [auto_delete_messages], an integer [auto_delete_interval],
    a string [welcome_message] and a timestamp [created_at], the time of
    the run; it is the only document of [settings], written by the only
    insert of the script. *)
Theorem settings_seed (now : Z) :
  ∃ d, stored "settings" (bootstrapped now) = [d] ∧
       settings_shape d ∧
       field "auto_delete_messages" d = Some (VBool true) ∧
       field "auto_delete_interval" d = Some (VNum 30) ∧
       field "created_at" d = Some (VDate now) ∧
       length (insert_targets mongo_init) = 1%nat.
Proof.
  eexists. split; [vm_compute; reflexivity|].
  split; [by eexists _, _, _, _|].
  repeat split; vm_compute; reflexivity.
Qed.

(** C9: the script inserts into [settings] only; after the run [users],
    [messages] and [groups] exist and hold no document. *)
Theorem bootstrap_writes_settings_only (now : Z) :
  insert_targets mongo_init = ["settings"] ∧
  docs <$> find_coll "tgbot" "users" (bootstrapped now) = Some [] ∧
  docs <$> find_coll "tgbot" "messages" (bootstrapped now) = Some [] ∧
  docs <$> find_coll "tgbot" "groups" (bootstrapped now) = Some [].
Proof. repeat split; vm_compute; reflexivity. Qed.

(** *** Running the script again *)

(** Whatever the state, the statements a run attempts are an initial
    part of the script: nothing is skipped, reordered or added. *)
Lemma attempted_prefix now prog st :
  attempted (run now prog st) `prefix_of` prog.
Proof.
  revert st. induction prog as [|c rest IH]; intros st; simpl.
  - done.
  - destruct (exec now c st) as [st'|e]; simpl.
    + by apply prefix_cons.
    + apply prefix_cons, prefix_nil.
Qed.

Lemma attempted_cons_ok now c rest st st' :
  exec now c st = Ok st' →
  attempted (run now (c :: rest) st) = c :: attempted (run now rest st').
Proof. intros H. cbn [run]. by rewrite H. Qed.

Lemma attempted_cons_throw now c rest st e :
  exec now c st = Throw e →
  attempted (run now (c :: rest) st) = [c].
Proof. intros H. cbn [run]. by rewrite H. Qed.

(** The user creation is issued from every state, without a test. *)
Lemma createUser_always_attempted now st :
  ∃ rest,
    attempted (run now mongo_init st) =
    GetSiblingDB "tgbot"
      :: CreateUser "admin" "465465Daz" [("readWrite", "tgbot")] :: rest.
Proof.
  unfold mongo_init.
  rewrite (attempted_cons_ok now _ _ st {| db := "tgbot"; srv := srv st |})
    by reflexivity.
  match goal with
  | |- context [run now (?c :: ?rest) ?st'] =>
      destruct (exec now c st') as [st2|e] eqn:E;
      [ rewrite (attempted_cons_ok now c rest st' st2 E)
      | rewrite (attempted_cons_throw now c rest st' e E) ]
  end; eauto.
Qed.

(** C4, the claim as stated, fails: the second run does not reach the
    collection creations. *)
Lemma rerun_issues_no_createCollection :
  ¬ (∀ name, CreateCollection name ∈ mongo_init →
             CreateCollection name ∈ attempted (rerun 0 1)).
Proof.
  intros H. specialize (H "users").
  assert (Hin : CreateCollection "users" ∈ mongo_init).
  { apply list_elem_of_In. unfold mongo_init. simpl. auto. }
  apply H, list_elem_of_In in Hin. vm_compute in Hin.
  destruct Hin as [Hin|[Hin|[]]]; discriminate Hin.
Qed.

(** C4, amended: the script has no guard.  From every state it issues
    the user creation, and what it attempts is always an initial part
    of its fixed statement list.  Run a second time against the store
    it initialised, it issues the user creation again, which throws
    because the user exists; the run ends there, before the collection
    creations, and the store is as the first run left it. *)
Theorem rerun_unguarded (now1 now2 : Z) :
  (∀ now st, attempted (run now mongo_init st) `prefix_of` mongo_init) ∧
  (∀ now st, ∃ rest,
      attempted (run now mongo_init st) =
      GetSiblingDB "tgbot"
        :: CreateUser "admin" "465465Daz" [("readWrite", "tgbot")] :: rest) ∧
  attempted (rerun now1 now2) =
    [ GetSiblingDB "tgbot";
      CreateUser "admin" "465465Daz" [("readWrite", "tgbot")] ] ∧
  thrown (rerun now1 now2) = Some (UserAlreadyExists "tgbot" "admin") ∧
  srv (final (rerun now1 now2)) = bootstrapped now1.
Proof.
  split; [intros; apply attempted_prefix|].
  split; [intros; apply createUser_always_attempted|].
  repeat split; vm_compute; reflexivity.
Qed.

(** *** Unique indexes *)

Lemma find_coll_put dbn coll c s dbn' coll' :
  find_coll dbn' coll' (put_coll dbn coll c s) =
  if decide (dbn' = dbn ∧ coll' = coll) then Some c
  else find_coll dbn' coll' s.
Proof.
  unfold find_coll, collections, put_coll; simpl.
  destruct (decide (dbn' = dbn)) as [->|Hdb].
  - rewrite lookup_insert_eq; simpl.
    destruct (decide (coll' = coll)) as [->|Hc].
    + rewrite lookup_insert_eq. by rewrite decide_True.
    + rewrite lookup_insert_ne by done.
      by rewrite decide_False by (by intros [_ ?]).
  - rewrite lookup_insert_ne by done.
    by rewrite decide_False by (by intros [? _]).
Qed.

(** What an accepted insert did: it appended one document, equal to
    the given one on every field but a generated [_id], that violates
    no unique index, and touched no other collection. *)
Lemma insertOne_ok dbn coll d s s' :
  insertOne dbn coll d s = Ok s' →
  ∃ d', (∀ k, k ≠ "_id" → key_of k d' = key_of k d) ∧
        violated (get_coll dbn coll s) d' = None ∧
        ∀ dbn' coll',
          find_coll dbn' coll' s' =
          if decide (dbn' = dbn ∧ coll' = coll)
          then Some {| docs := docs (get_coll dbn coll s) ++ [d'];
                       indexes := indexes (get_coll dbn coll s) |}
          else find_coll dbn' coll' s.
Proof.
  unfold insertOne. intros H.
  destruct (field "_id" d) eqn:Hid.
  - destruct (violated _ d) eqn:Hv; [discriminate|].
    injection H as <-. exists d. split; [done|]. split; [done|].
    intros. apply find_coll_put.
  - destruct (violated _ _) eqn:Hv; [discriminate|].
    injection H as <-. eexists. split; [|split; [exact Hv|]].
    + intros k Hk. unfold key_of. simpl.
      rewrite bool_decide_false; [done|congruence].
    + intros. apply find_coll_put.
Qed.

Lemma violated_none c d ix :
  violated c d = None → ix ∈ indexes c → idx_unique ix = true →
  key_of (idx_key ix) d ∉ key_of (idx_key ix) <$> docs c.
Proof.
  unfold violated. intros Hv Hin Hu Hel.
  apply list_elem_of_In in Hin.
  pose proof (List.find_none _ _ Hv _ Hin) as Hf. simpl in Hf.
  rewrite Hu in Hf. simpl in Hf. unfold clashes in Hf.
  by apply bool_decide_eq_false in Hf.
Qed.

Lemma violated_some c d ix d0 :
  ix ∈ indexes c → idx_unique ix = true → d0 ∈ docs c →
  key_of (idx_key ix) d = key_of (idx_key ix) d0 →
  is_Some (violated c d).
Proof.
  intros Hin Hu Hd Hk.
  destruct (violated c d) eqn:Hv; [by eexists|].
  exfalso. eapply violated_none; eauto.
  rewrite Hk. by apply list_elem_of_fmap_2.
Qed.

Lemma keeps_unique_snoc k c d :
  keeps_unique k c → violated c d = None →
  keeps_unique k {| docs := docs c ++ [d]; indexes := indexes c |}.
Proof.
  intros [Hix Hnd] Hv. split; [done|]. simpl.
  rewrite fmap_app. apply NoDup_app. split; [done|]. split.
  - intros v Hv1 Hv2. apply list_elem_of_singleton in Hv2 as ->.
    by eapply (violated_none c d _ Hv Hix).
  - apply NoDup_singleton.
Qed.

Lemma unique_keys_boot now : unique_keys (bootstrapped now).
Proof.
  split; eexists; (split; [vm_compute; reflexivity|]);
    (split; [apply list_elem_of_In; simpl; auto | constructor]).
Qed.

Lemma unique_keys_insert dbn coll d s s' :
  unique_keys s → insertOne dbn coll d s = Ok s' → unique_keys s'.
Proof.
  intros [[cu [Hu Hku]] [cg [Hg Hkg]]] Hins.
  destruct (insertOne_ok _ _ _ _ _ Hins) as (d' & _ & Hv & Hfind).
  unfold get_coll in *.
  split; rewrite Hfind; case_decide as Hc.
  - destruct Hc as [<- <-]. rewrite Hu in *. simpl in *.
    eexists; split; [done|]. by apply keeps_unique_snoc.
  - eauto.
  - destruct Hc as [<- <-]. rewrite Hg in *. simpl in *.
    eexists; split; [done|]. by apply keeps_unique_snoc.
  - eauto.
Qed.

Lemma reachable_unique_keys s : reachable s → unique_keys s.
Proof.
  induction 1 as [now|s dbn coll d s' _ IH Hins].
  - apply unique_keys_boot.
  - by eapply unique_keys_insert.
Qed.

(** An insert that repeats the key of a stored document under a unique
    index other than [_id] is refused with a duplicate-key error. *)
Lemma insertOne_duplicate coll k c d0 d s :
  find_coll "tgbot" coll s = Some c → keeps_unique k c → k ≠ "_id" →
  d0 ∈ docs c → key_of k d = key_of k d0 →
  ∃ k', insertOne "tgbot" coll d s = Throw (DuplicateKey coll k').
Proof.
  intros Hc [Hix _] Hk Hd0 Hkey.
  unfold insertOne, get_coll. rewrite Hc. simpl.
  destruct (field "_id" d) eqn:Hid.
  - destruct (violated_some c d _ d0 Hix eq_refl Hd0 Hkey) as [ix ->].
    by eexists.
  - edestruct (violated_some c (("_id", VOid (next_oid s)) :: d) _ d0
                 Hix eq_refl Hd0) as [ix ->]; [|by eexists].
    simpl. rewrite <- Hkey. unfold key_of. simpl.
    rewrite bool_decide_false; [done|congruence].
Qed.

(** C2: in every store reachable from the bootstrapped one, an insert
    into [users] (into [groups]) that repeats the [user_id] (the
    [group_id]) of a stored document throws a duplicate-key error and
    leaves the store as it was; no two stored documents share a
    [user_id] or a [group_id], whatever inserts came before. *)
Theorem unique_index_rejects_duplicate (s : server) (Hs : reachable s) :
  (∀ d0 d, d0 ∈ stored "users" s →
           key_of "user_id" d = key_of "user_id" d0 →
           (∃ k, insertOne "tgbot" "users" d s = Throw (DuplicateKey "users" k)) ∧
           after (insertOne "tgbot" "users" d s) s = s) ∧
  (∀ d0 d, d0 ∈ stored "groups" s →
           key_of "group_id" d = key_of "group_id" d0 →
           (∃ k, insertOne "tgbot" "groups" d s = Throw (DuplicateKey "groups" k)) ∧
           after (insertOne "tgbot" "groups" d s) s = s) ∧
  NoDup (key_of "user_id" <$> stored "users" s) ∧
  NoDup (key_of "group_id" <$> stored "groups" s).
Proof.
  destruct (reachable_unique_keys s Hs) as [[cu [Hu Hku]] [cg [Hg Hkg]]].
  unfold stored, get_coll. rewrite Hu, Hg. simpl.
  split; [|split; [|split; [apply Hku|apply Hkg]]].
  - intros d0 d Hd0 Hkey.
    destruct (insertOne_duplicate "users" "user_id" cu d0 d s) as [k Hk];
      [done..|].
    rewrite Hk. eauto.
  - intros d0 d Hd0 Hkey.
    destruct (insertOne_duplicate "groups" "group_id" cg d0 d s) as [k Hk];
      [done..|].
    rewrite Hk. eauto.
Qed.

(** Witness for C2: the store holding one user refuses a second
    document with the same [user_id]. *)
Lemma unique_index_rejects_duplicate_witness :
  reachable one_user ∧
  ∃ k, insertOne "tgbot" "users"
         [("user_id", VNum 7); ("name", VStr "second")] one_user
       = Throw (DuplicateKey "users" k).
Proof.
  assert (Hr : reachable one_user).
  { apply (reach_insert (bootstrapped 0) "tgbot" "users" [("user_id", VNum 7)]).
    - apply reach_boot.
    - vm_compute. reflexivity. }
  split; [exact Hr|].
  refine (proj1 (proj1 (unique_index_rejects_duplicate one_user Hr)
                   [("_id", VOid 0); ("user_id", VNum 7)] _ _ _)).
  - apply list_elem_of_In. vm_compute. left. reflexivity.
  - reflexivity.
Defined.

End Bootstrap.

(** ** The publish scripts *)
Section Publish.

Lemma sh_confirmed_affirmative c : DockerPushSh.confirmed c = affirmative c.
Proof.
  destruct c as [|a [|b c]].
  - reflexivity.
  - destruct a as [[] [] [] [] [] [] [] []]; vm_compute; reflexivity.
  - unfold affirmative. rewrite bool_decide_false by (by intros [?|?]).
    unfold DockerPushSh.confirmed, Regex.search; simpl.
    apply bool_decide_eq_false. intros [n Hn].
    destruct (bool_decide _); discriminate Hn.
Qed.

Lemma bat_confirmed_affirmative c : DockerPushBat.confirmed c = affirmative c.
Proof.
  destruct c as [|a [|b c]].
  - reflexivity.
  - destruct a as [[] [] [] [] [] [] [] []]; vm_compute; reflexivity.
  - unfold affirmative. rewrite bool_decide_false by (by intros [?|?]).
    unfold DockerPushBat.confirmed, ci_eqb; simpl.
    by apply bool_decide_eq_false.
Qed.

Lemma affirmative_nonempty a : affirmative a = true → a ≠ EmptyString.
Proof. intros H ->. discriminate H. Qed.

(** The shell variant: its registry commands are the two publishing
    steps on an affirmative answer and none otherwise. *)
Lemma sh_registry_commands ns a :
  registry_commands (DockerPushSh.script ns a) =
  if affirmative (Bash.read a) then publish_steps ns else [].
Proof.
  unfold DockerPushSh.script. rewrite sh_confirmed_affirmative.
  destruct (affirmative (Bash.read a)); reflexivity.
Qed.

(** The batch variant, when the prompt assigns [CONFIRM]: always on a
    non-empty answer, and on an empty one when the session holds no
    earlier [CONFIRM]. *)
Lemma bat_registry_commands ns env a :
  a ≠ EmptyString ∨ env !! "CONFIRM" = None →
  registry_commands (DockerPushBat.script ns env a).2 =
  if affirmative a then publish_steps ns else [].
Proof.
  intros H. unfold DockerPushBat.script.
  assert (HC : DockerPushBat.expand
                 (DockerPushBat.set_p "CONFIRM" a
                    (DockerPushBat.set_var "DOCKER_USERNAME" ns env))
                 "CONFIRM" = a).
  { unfold DockerPushBat.expand, DockerPushBat.set_p, DockerPushBat.set_var.
    case_bool_decide as Ha.
    - subst a. destruct H as [H|H]; [done|].
      rewrite lookup_insert_ne by done. by rewrite H.
    - by rewrite lookup_insert_eq. }
  assert (HU : DockerPushBat.expand
                 (DockerPushBat.set_p "CONFIRM" a
                    (DockerPushBat.set_var "DOCKER_USERNAME" ns env))
                 "DOCKER_USERNAME" = ns).
  { unfold DockerPushBat.expand, DockerPushBat.set_p, DockerPushBat.set_var.
    case_bool_decide.
    - by rewrite lookup_insert_eq.
    - rewrite lookup_insert_ne by done. by rewrite lookup_insert_eq. }
  rewrite HC, HU, bat_confirmed_affirmative.
  destruct (affirmative a); reflexivity.
Qed.

Example sh_run_no :
  DockerPushSh.run "n" =
  [ Echo "您的DockerHub用户名是: your-username";
    Prompt "确认继续? [y/N]: ";
    Echo "操作取消";
    Exit 1 ].
Proof. reflexivity. Qed.

Example bat_run_no :
  (DockerPushBat.run ∅ "n").2 =
  [ Echo "上传Docker镜像到DockerHub";
    Echo "您的DockerHub用户名是: diciky";
    Prompt "确认继续? [Y/N]:";
    ExitB ].
Proof. reflexivity. Qed.

(** On any input that [read] does not turn into y or Y the shell
    variant runs no registry command; so does the batch variant, on an
    answer other than y and Y, in a console that holds no earlier
    [CONFIRM]. *)
Lemma negative_answer_aborts a env :
  (affirmative (Bash.read a) = false →
   registry_commands (DockerPushSh.run a) = []) ∧
  (affirmative a = false → env !! "CONFIRM" = None →
   registry_commands (DockerPushBat.run env a).2 = []).
Proof.
  unfold DockerPushSh.run, DockerPushBat.run. split.
  - intros Ha. by rewrite sh_registry_commands, Ha.
  - intros Ha Henv. rewrite bat_registry_commands, Ha; auto.
Qed.

(** What [read] makes of some typed lines. *)
Example read_trims : Bash.read " y " = "y".
Proof. reflexivity. Qed.

Example read_unescapes : Bash.read "\y" = "y".
Proof. reflexivity. Qed.

Example read_keeps_protected_blank : Bash.read "y\ " = "y ".
Proof. reflexivity. Qed.

Example read_strips_after_second_word : Bash.read "y \ " = "y".
Proof. reflexivity. Qed.

(** C3: the batch variant fails the claim.  In a console where an
    earlier run was confirmed with Y, a run answered with the empty line
    keeps the old [CONFIRM] and executes the tag and the push. *)
Theorem bat_empty_answer_after_confirmed_run :
  affirmative EmptyString = false ∧
  registry_commands (DockerPushBat.run_twice ∅ "Y" EmptyString).2 =
  [ DockerTag "tgbot" "diciky/tgbot:latest";
    DockerPush "diciky/tgbot:latest" ].
Proof. split; vm_compute; reflexivity. Qed.




End Publish.

(** ** The container build *)
Section Build.
Import Dockerfile.

Lemma append_empty_r (s : string) : s +:+ EmptyString = s.
Proof.
  induction s as [|c s IH]; [done|].
  rewrite <- IH at 2. reflexivity.
Qed.

(** [base] is the configuration of the image named by FROM.  The
    python image defines no [WEB_PORT] and exposes no port. *)
Variable base : image.
Hypothesis base_exposes_nothing : exposed base = ∅.
Hypothesis base_no_web_port : env base !! "WEB_PORT" = None.

(** The four closing instructions, from a stage whose environment has
    no [WEB_PORT] yet. *)
Lemma port_instructions cli st v p :
  env (img st) !! "WEB_PORT" = None →
  default "7000" (cli !! "WEB_PORT") = v → parse_port v = Some p →
  steps base cli
    [ ARG "WEB_PORT" (Some "7000");
      ENV "WEB_PORT" [Ref "WEB_PORT"];
      EXPOSE [Ref "WEB_PORT"];
      CMD ["python"; "main.py"] ] st
  = Some {| img := {| env := <["WEB_PORT" := v]> (env (img st));
                      exposed := {[p]} ∪ exposed (img st);
                      workdir := workdir (img st);
                      cmd := ["python"; "main.py"] |};
            args := <["WEB_PORT" := v]> (args st) |}.
Proof.
  intros Henv Hv Hp.
  assert (Harg : step base cli (ARG "WEB_PORT" (Some "7000")) st
                 = Some {| img := img st; args := <["WEB_PORT" := v]> (args st) |}).
  { cbn [step]. destruct (cli !! "WEB_PORT"); simpl in Hv; by subst. }
  cbn [steps]. rewrite Harg. clear Harg.
  cbn [steps step img args env exposed workdir cmd].
  assert (Hx1 : ∀ im, env im !! "WEB_PORT" = None →
            expand {| img := im; args := <["WEB_PORT" := v]> (args st) |}
                   [Ref "WEB_PORT"] = v).
  { intros im Him. unfold expand, lookup_var. cbn [foldr img env args].
    rewrite Him, lookup_insert_eq. apply append_empty_r. }
  rewrite !(Hx1 (img st) Henv).
  assert (Hx2 : ∀ im a, env im !! "WEB_PORT" = Some v →
            expand {| img := im; args := a |} [Ref "WEB_PORT"] = v).
  { intros im a Him. unfold expand, lookup_var. cbn [foldr img env args].
    rewrite Him. apply append_empty_r. }
  rewrite Hx2 by (cbn [env]; apply lookup_insert_eq).
  by rewrite Hp.
Qed.

Lemma steps_app cli l1 l2 st :
  steps base cli (l1 ++ l2) st = steps base cli l1 st ≫= steps base cli l2.
Proof.
  revert st. induction l1 as [|i l1 IH]; intros st; [done|].
  cbn [app steps]. destruct (step base cli i st); [apply IH|done].
Qed.

Lemma build_exposes cli v p :
  default "7000" (cli !! "WEB_PORT") = v → parse_port v = Some p →
  ∃ im, build base cli dockerfile = Some im ∧
        exposed im = {[p]} ∧
        env im !! "WEB_PORT" = Some v ∧
        cmd im = ["python"; "main.py"].
Proof.
  intros Hv Hp. unfold build.
  change dockerfile with (take 8 dockerfile ++ drop 8 dockerfile).
  rewrite steps_app.
  cbn [dockerfile take steps step img args env exposed workdir cmd mbind option_bind].
  cbn [drop].
  rewrite (port_instructions cli _ v p); [|cbn [img env]|done..].
  - eexists. split; [reflexivity|]. cbn [img exposed env cmd].
    rewrite base_exposes_nothing, lookup_insert_eq.
    split; [apply (right_id_L ∅ (∪))|done].
  - by rewrite lookup_insert_ne.
Qed.

(** C6: the build takes the port from the build argument [WEB_PORT],
    7000 when the argument is not given; it exposes exactly that port,
    sets the environment variable [WEB_PORT] to it, and its start
    command is [python main.py]. *)
Theorem build_exposes_web_port :
  (∃ im, build base (build_args None) dockerfile = Some im ∧
         exposed im = {[7000%N]} ∧
         env im !! "WEB_PORT" = Some "7000" ∧
         cmd im = ["python"; "main.py"]) ∧
  (∀ v p, parse_port v = Some p →
     ∃ im, build base (build_args (Some v)) dockerfile = Some im ∧
           exposed im = {[p]} ∧
           env im !! "WEB_PORT" = Some v ∧
           cmd im = ["python"; "main.py"]).
Proof.
  split.
  - by apply build_exposes.
  - intros v p Hp. apply build_exposes; [|done].
    unfold build_args. by rewrite lookup_singleton_eq.
Qed.

End Build.

(** Witness for C6: built on an image without configuration, with
    [--build-arg WEB_PORT=8080]. *)
Lemma build_exposes_web_port_witness :
  ∃ im, Dockerfile.build Dockerfile.scratch
          (Dockerfile.build_args (Some "8080")) Dockerfile.dockerfile = Some im ∧
        Dockerfile.exposed im = {[8080%N]} ∧
        Dockerfile.env im !! "WEB_PORT" = Some "8080" ∧
        Dockerfile.cmd im = ["python"; "main.py"].
Proof.
  apply (proj2 (build_exposes_web_port Dockerfile.scratch eq_refl eq_refl)).
  reflexivity.
Defined.

(** ** The patch script *)
Section Patch.
Import Regex FixApiPath.


Lemma text_app (a b : list ascii) : text (a ++ b) = text a +:+ text b.
Proof. induction a as [|c a IH]; [done|]. cbn [app text]. by rewrite IH. Qed.

Lemma star_dot_all s : match_here [Star Dot] s = Some (length s).
Proof.
  induction s as [|c s IH]; [done|].
  cbn in *. by rewrite IH.
Qed.

(** A pattern of single characters closed by [.*] matches, when it
    does, up to the end of the line. *)
Lemma ones_star_all (P : list atom) s n :
  match_here ((One <$> P) ++ [Star Dot]) s = Some n → n = length s.
Proof.
  revert s n. induction P as [|a P IH]; intros s n H.
  - cbn [fmap list_fmap app] in H. rewrite star_dot_all in H. congruence.
  - cbn [fmap list_fmap app match_here] in H.
    destruct s as [|c s]; [done|].
    destruct (atom_matches a c); [|done].
    destruct (match_here _ s) as [m|] eqn:E; [|done].
    apply IH in E. simpl in H. injection H as <-. by rewrite E.
Qed.

Lemma search_re_shape :
  search_re = (One <$> (atom_of <$> chars "axios.defaults.baseURL = ")) ++ [Star Dot].
Proof. reflexivity. Qed.

Lemma search_re_match_all s n :
  match_here search_re s = Some n → n = length s.
Proof. rewrite search_re_shape. apply ones_star_all. Qed.

Lemma skip_rest s b :
  subst_g search_re (chars replacement) s (length s) b = [].
Proof.
  revert b. induction s as [|c s IH]; intros b; [done|].
  cbn [length subst_g]. apply IH.
Qed.

(** sed on one line, unfolded: at the first match the rest of the line
    is replaced, before it the characters are copied. *)
Lemma patch_chars_cons c s :
  patch_chars (c :: s) =
  match match_here search_re (c :: s) with
  | Some _ => chars replacement
  | None => c :: patch_chars s
  end.
Proof.
  unfold patch_chars. cbn [subst_g].
  destruct (match_here search_re (c :: s)) as [n|] eqn:E; [|done].
  apply search_re_match_all in E as ->. cbn [length].
  rewrite skip_rest. apply app_nil_r.
Qed.

Lemma patch_chars_found s :
  if search_body search_re s
  then ∃ pre rest, s = pre ++ rest ∧ is_Some (match_here search_re rest) ∧
                   patch_chars s = pre ++ chars replacement
  else patch_chars s = s.
Proof.
  induction s as [|c s IH]; [done|].
  rewrite patch_chars_cons. cbn [search_body].
  destruct (match_here search_re (c :: s)) as [n|] eqn:E.
  - exists [], (c :: s). rewrite E. eauto.
  - destruct (search_body search_re s).
    + destruct IH as (pre & rest & -> & Hm & ->).
      by exists (c :: pre), rest.
    + by rewrite IH.
Qed.

(** *** Running the substitution again *)











End Patch.

(** * Further properties of the scripts *)

(** ** The bootstrap on a server that holds other data *)
Section BootstrapAnywhere.
Import Mongo.





Lemma run_cons_ok now c rest st st' :
  exec now c st = Ok st' →
  run now (c :: rest) st =
  {| attempted := c :: attempted (run now rest st');
     final := final (run now rest st');
     thrown := thrown (run now rest st') |}.
Proof. intros H. cbn [run]. by rewrite H. Qed.

Lemma run_cons_throw now c rest st e :
  exec now c st = Throw e →
  run now (c :: rest) st =
  {| attempted := [c]; final := st; thrown := Some e |}.
Proof. intros H. cbn [run]. by rewrite H. Qed.



(** X2: in any state where the account [admin] exists on [tgbot], a run
    of the script stops at the user creation with the already-exists
    error, and the store is left exactly as it was: no collection,
    index, document or account is touched. *)
Theorem rerun_changes_nothing (now : Z) (db0 : string) (s : server)
    (Hacc : is_Some (accounts s !! ("tgbot", "admin"))) :
  run now mongo_init {| db := db0; srv := s |} =
  {| attempted := [ GetSiblingDB "tgbot";
                    CreateUser "admin" "465465Daz" [("readWrite", "tgbot")] ];
     final := {| db := "tgbot"; srv := s |};
     thrown := Some (UserAlreadyExists "tgbot" "admin") |}.
Proof.
  destruct Hacc as [a Ha]. unfold mongo_init.
  rewrite (run_cons_ok now _ _ _ {| db := "tgbot"; srv := s |}) by reflexivity.
  rewrite (run_cons_throw now _ _ _ (UserAlreadyExists "tgbot" "admin")).
  - reflexivity.
  - cbn [exec db srv]. unfold createUser. by rewrite Ha.
Qed.

(** Witness for X2: the store with one user, reached after bootstrap. *)
Lemma rerun_changes_nothing_witness :
  srv (final (run 9 mongo_init {| db := "test"; srv := one_user |})) = one_user ∧
  thrown (run 9 mongo_init {| db := "test"; srv := one_user |})
    = Some (UserAlreadyExists "tgbot" "admin").
Proof.
  rewrite (rerun_changes_nothing 9 "test" one_user).
  - split; reflexivity.
  - vm_compute. eauto.
Defined.

End BootstrapAnywhere.

(** ** The store under the application's inserts *)
Section Inserts.
Import Mongo.

Lemma get_coll_after_insert dbn coll d s s' dbn' coll' :
  insertOne dbn coll d s = Ok s' →
  indexes (get_coll dbn' coll' s') = indexes (get_coll dbn' coll' s) ∧
  docs (get_coll dbn' coll' s) `prefix_of` docs (get_coll dbn' coll' s') ∧
  accounts s' = accounts s.
Proof.
  intros H.
  assert (Hacc : accounts s' = accounts s).
  { unfold insertOne in H. destruct (field "_id" d);
      destruct (violated _ _); by simplify_eq. }
  destruct (insertOne_ok _ _ _ _ _ H) as (d' & _ & _ & Hfind).
  assert (Hget : get_coll dbn' coll' s' =
                 if decide (dbn' = dbn ∧ coll' = coll)
                 then {| docs := docs (get_coll dbn coll s) ++ [d'];
                         indexes := indexes (get_coll dbn coll s) |}
                 else get_coll dbn' coll' s).
  { unfold get_coll at 1. rewrite Hfind. by case_decide. }
  rewrite Hget. case_decide as Hc.
  - destruct Hc as [-> ->]. cbn. split; [done|]. split; [|done].
    by apply prefix_app_r.
  - done.
Qed.

(** Inserts never change an index or an account and never remove a
    document. *)
Lemma reachable_grows s :
  reachable s →
  ∃ now,
    (∀ dbn coll, indexes (get_coll dbn coll s)
                 = indexes (get_coll dbn coll (bootstrapped now))) ∧
    (∀ dbn coll, docs (get_coll dbn coll (bootstrapped now))
                 `prefix_of` docs (get_coll dbn coll s)) ∧
    accounts s = accounts (bootstrapped now).
Proof.
  induction 1 as [now|s dbn coll d s' _ (now & Hix & Hdocs & Hacc) Hins].
  - by exists now.
  - exists now. split; [|split].
    + intros dbn' coll'.
      destruct (get_coll_after_insert _ _ _ _ _ dbn' coll' Hins) as (-> & _ & _).
      apply Hix.
    + intros dbn' coll'.
      destruct (get_coll_after_insert _ _ _ _ _ dbn' coll' Hins) as (_ & Hp & _).
      etrans; [apply Hdocs|apply Hp].
    + destruct (get_coll_after_insert _ _ _ _ _ "tgbot" "users" Hins) as (_ & _ & ->).
      apply Hacc.
Qed.

Lemma violated_none_intro c d :
  (∀ ix, ix ∈ indexes c → idx_unique ix = true →
         key_of (idx_key ix) d ∉ key_of (idx_key ix) <$> docs c) →
  violated c d = None.
Proof.
  intros H. unfold violated.
  destruct (List.find _ _) as [ix|] eqn:E; [|done].
  apply List.find_some in E as [Hin Hf]. apply list_elem_of_In in Hin.
  apply andb_prop in Hf as [Hu Hcl].
  unfold clashes in Hcl. apply bool_decide_eq_true in Hcl.
  by destruct (H ix Hin Hu).
Qed.

(** An insert with an explicit [_id] that violates no unique index is
    accepted and appends the document as given. *)
Lemma insertOne_accepted coll d v s :
  field "_id" d = Some v →
  violated (get_coll "tgbot" coll s) d = None →
  ∃ s', insertOne "tgbot" coll d s = Ok s' ∧
        stored coll s' = stored coll s ++ [d].
Proof.
  intros Hid Hv. unfold insertOne.
  rewrite Hid. cbn beta iota. rewrite Hv.
  eexists. split; [reflexivity|].
  unfold stored at 1, get_coll at 1, find_coll, collections at 1, put_coll.
  cbn [dbs]. rewrite lookup_insert_eq. cbn [from_option id].
  by rewrite lookup_insert_eq.
Qed.

Lemma reachable_one_user : reachable one_user.
Proof.
  apply (reach_insert (bootstrapped 0) "tgbot" "users" [("user_id", VNum 7)]).
  - apply reach_boot.
  - vm_compute. reflexivity.
Qed.

Lemma reachable_one_message : reachable one_message.
Proof.
  apply (reach_insert (bootstrapped 0) "tgbot" "messages"
           [("_id", VNum 1); ("message_id", VNum 42); ("chat_id", VNum 5)]).
  - apply reach_boot.
  - vm_compute. reflexivity.
Qed.

(** X3: in every store reachable from the bootstrapped one the indexes
    are the ones the script declared, no more and no fewer: the unique
    index on [user_id] for [users], the three plain indexes on
    [message_id], [chat_id] and [date] for [messages], the unique index
    on [group_id] for [groups], and in each collection the index on
    [_id]. *)
Theorem declared_indexes_stay (s : server) (Hs : reachable s) :
  indexes (get_coll "tgbot" "users" s) =
    [ id_index; {| idx_key := "user_id"; idx_dir := 1; idx_unique := true |} ] ∧
  indexes (get_coll "tgbot" "messages" s) =
    [ id_index;
      {| idx_key := "message_id"; idx_dir := 1; idx_unique := false |};
      {| idx_key := "chat_id"; idx_dir := 1; idx_unique := false |};
      {| idx_key := "date"; idx_dir := 1; idx_unique := false |} ] ∧
  indexes (get_coll "tgbot" "groups" s) =
    [ id_index; {| idx_key := "group_id"; idx_dir := 1; idx_unique := true |} ] ∧
  indexes (get_coll "tgbot" "settings" s) = [ id_index ].
Proof.
  destruct (reachable_grows s Hs) as (now & Hix & _ & _).
  rewrite !Hix. repeat split; vm_compute; reflexivity.
Qed.

(** Witness for X3, on the store with one user. *)
Lemma declared_indexes_stay_witness :
  indexes (get_coll "tgbot" "users" one_user) =
    [ id_index; {| idx_key := "user_id"; idx_dir := 1; idx_unique := true |} ].
Proof. apply (declared_indexes_stay one_user reachable_one_user). Defined.

(** X4: [messages] has no unique index besides [_id]: in every
    reachable store an insert into [messages] with an explicit [_id]
    that no stored message has is accepted and appended unchanged,
    whatever its [message_id], [chat_id] and [date], also when they
    repeat those of stored messages. *)
Theorem messages_accept_repeated_keys (s : server) (d : document) (v : value)
    (Hs : reachable s)
    (Hid : field "_id" d = Some v)
    (Hfresh : v ∉ key_of "_id" <$> stored "messages" s) :
  ∃ s', insertOne "tgbot" "messages" d s = Ok s' ∧
        stored "messages" s' = stored "messages" s ++ [d].
Proof.
  apply (insertOne_accepted "messages" d v s Hid).
  apply violated_none_intro. intros ix Hix Hu.
  destruct (reachable_grows s Hs) as (now & Hidx & _ & _).
  rewrite Hidx in Hix. vm_compute in Hix.
  apply list_elem_of_In in Hix.
  destruct Hix as [<-|[<-|[<-|[<-|[]]]]]; try discriminate Hu.
  cbn [idx_key id_index]. unfold key_of at 1. by rewrite Hid.
Qed.

(** Witness for X4: a second message with the [message_id] and
    [chat_id] of the stored one. *)
Lemma messages_accept_repeated_keys_witness :
  ∃ s', insertOne "tgbot" "messages"
          [("_id", VNum 2); ("message_id", VNum 42); ("chat_id", VNum 5)]
          one_message = Ok s' ∧
        stored "messages" s' =
        stored "messages" one_message ++
        [[("_id", VNum 2); ("message_id", VNum 42); ("chat_id", VNum 5)]].
Proof.
  apply (messages_accept_repeated_keys one_message
           [("_id", VNum 2); ("message_id", VNum 42); ("chat_id", VNum 5)]
           (VNum 2) reachable_one_message eq_refl).
  vm_compute. intros H. apply list_elem_of_In in H.
  destruct H as [H|[]]. discriminate H.
Defined.

(** X5: in every reachable store an insert into [users] with an
    explicit [_id] is accepted, and appended unchanged, as soon as
    neither its [_id] nor its [user_id] is held by a stored user: the
    unique indexes refuse duplicates and nothing else. *)
Theorem users_accept_new_keys (s : server) (d : document) (v : value)
    (Hs : reachable s)
    (Hid : field "_id" d = Some v)
    (Hfresh : v ∉ key_of "_id" <$> stored "users" s)
    (Hnew : key_of "user_id" d ∉ key_of "user_id" <$> stored "users" s) :
  ∃ s', insertOne "tgbot" "users" d s = Ok s' ∧
        stored "users" s' = stored "users" s ++ [d].
Proof.
  apply (insertOne_accepted "users" d v s Hid).
  apply violated_none_intro. intros ix Hix Hu.
  destruct (reachable_grows s Hs) as (now & Hidx & _ & _).
  rewrite Hidx in Hix. vm_compute in Hix.
  apply list_elem_of_In in Hix.
  destruct Hix as [<-|[<-|[]]].
  - cbn [idx_key id_index]. unfold key_of at 1. by rewrite Hid.
  - exact Hnew.
Qed.

(** Witness for X5: a second user with another [user_id]. *)
Lemma users_accept_new_keys_witness :
  ∃ s', insertOne "tgbot" "users"
          [("_id", VNum 2); ("user_id", VNum 8)] one_user = Ok s' ∧
        stored "users" s' =
        stored "users" one_user ++ [[("_id", VNum 2); ("user_id", VNum 8)]].
Proof.
  apply (users_accept_new_keys one_user
           [("_id", VNum 2); ("user_id", VNum 8)] (VNum 2)
           reachable_one_user eq_refl).
  - vm_compute. intros H. apply list_elem_of_In in H.
    destruct H as [H|[]]. discriminate H.
  - vm_compute. intros H. apply list_elem_of_In in H.
    destruct H as [H|[]]. discriminate H.
Defined.

(** X6: the settings document stays a singleton under its id: in every
    reachable store the seeded document is still the first document of
    [settings], and an insert of another document with [_id]
    [bot_settings] is refused with a duplicate-key error on [_id]. *)
Theorem settings_singleton_stays (s : server) (Hs : reachable s) :
  (∃ d rest, stored "settings" s = d :: rest ∧ settings_shape d) ∧
  ∀ d, field "_id" d = Some (VStr "bot_settings") →
       insertOne "tgbot" "settings" d s
       = Throw (DuplicateKey "settings" "_id").
Proof.
  destruct (reachable_grows s Hs) as (now & Hidx & Hdocs & _).
  destruct (Hdocs "tgbot" "settings") as [rest Hrest].
  assert (Hboot : docs (get_coll "tgbot" "settings" (bootstrapped now)) =
                  [ [ ("_id", VStr "bot_settings");
                      ("auto_delete_messages", VBool true);
                      ("auto_delete_interval", VNum 30);
                      ("welcome_message", VStr "欢迎使用Telegram Bot!");
                      ("created_at", VDate now) ] ])
    by (vm_compute; reflexivity).
  rewrite Hboot in Hrest. split.
  - eexists _, rest. split; [exact Hrest|]. by eexists _, _, _, _.
  - intros d Hid. unfold insertOne. rewrite Hid. cbn beta iota.
    unfold violated. rewrite Hidx.
    change (indexes (get_coll "tgbot" "settings" (bootstrapped now)))
      with [id_index].
    cbn [List.find idx_unique idx_key id_index andb].
    unfold clashes. rewrite Hrest.
    rewrite bool_decide_true; [done|].
    unfold key_of at 1. rewrite Hid. cbn. apply list_elem_of_here.
Qed.

(** Witness for X6, on the store with one user. *)
Lemma settings_singleton_stays_witness :
  insertOne "tgbot" "settings"
    [("_id", VStr "bot_settings"); ("auto_delete_messages", VBool false)]
    one_user
  = Throw (DuplicateKey "settings" "_id").
Proof.
  apply (proj2 (settings_singleton_stays one_user reachable_one_user)).
  reflexivity.
Defined.

(** X7: inserts never touch the accounts: in every reachable store the
    only account is [admin] on [tgbot], with the password of the script
    and the single role [readWrite] on [tgbot]. *)
Theorem accounts_stay (s : server) (Hs : reachable s) :
  accounts s = {[ ("tgbot", "admin") := admin_account ]}.
Proof.
  destruct (reachable_grows s Hs) as (now & _ & _ & ->).
  vm_compute. reflexivity.
Qed.

(** Witness for X7, on the store with one message. *)
Lemma accounts_stay_witness :
  accounts one_message = {[ ("tgbot", "admin") := admin_account ]}.
Proof. apply (accounts_stay one_message reachable_one_message). Defined.

End Inserts.

(** ** The publish scripts: console state and the abort path *)
Section PublishMore.

(** X8: in the batch variant an empty answer repeats the decision kept
    in the console: when [CONFIRM] holds [c], a run answered with the
    empty line does exactly what a run answered [c] does, and leaves
    the same variables. *)
Theorem bat_empty_answer_repeats (env : gmap string string) (c : string)
    (Hc : env !! "CONFIRM" = Some c) :
  DockerPushBat.run env EmptyString = DockerPushBat.run env c.
Proof.
  unfold DockerPushBat.run, DockerPushBat.script, DockerPushBat.set_p.
  rewrite bool_decide_true by done.
  case_bool_decide as Hempty; [done|].
  rewrite (insert_id (DockerPushBat.set_var "DOCKER_USERNAME" _ env) "CONFIRM" c);
    [done|].
  unfold DockerPushBat.set_var. by rewrite lookup_insert_ne.
Qed.

(** Witness for X8: a console that still holds the answer n. *)
Lemma bat_empty_answer_repeats_witness :
  DockerPushBat.run {[ "CONFIRM" := "n" ]} EmptyString
  = DockerPushBat.run {[ "CONFIRM" := "n" ]} "n".
Proof. apply (bat_empty_answer_repeats {[ "CONFIRM" := "n" ]} "n"). reflexivity. Defined.



(** X10: the abort path.  On typed input that [read] does not turn
    into y or Y the shell variant prints its cancel message and exits
    with status 1.  On an answer other than y and Y, without a double
    quote, in a console without an earlier [CONFIRM], the batch
    variant leaves through [exit /b] without a message. *)
Theorem abort_paths (line : string) (env : gmap string string) :
  (Bash.plain line →
   ¬ (Bash.read line = "y" ∨ Bash.read line = "Y") →
   DockerPushSh.run line =
     [ Echo "您的DockerHub用户名是: your-username";
       Prompt "确认继续? [y/N]: ";
       Echo "操作取消";
       Exit 1 ]) ∧
  (¬ (line = "y" ∨ line = "Y") → "034"%char ∉ chars line →
   env !! "CONFIRM" = None →
   (DockerPushBat.run env line).2 =
     [ Echo "上传Docker镜像到DockerHub";
       Echo "您的DockerHub用户名是: diciky";
       Prompt "确认继续? [Y/N]:";
       ExitB ]).
Proof.
  split.
  - intros _ Ha. unfold DockerPushSh.run, DockerPushSh.script.
    rewrite sh_confirmed_affirmative. unfold affirmative.
    by rewrite bool_decide_false.
  - intros Ha _ Henv.
    unfold DockerPushBat.run, DockerPushBat.script, DockerPushBat.DOCKER_USERNAME.
    assert (HC : DockerPushBat.expand
                   (DockerPushBat.set_p "CONFIRM" line
                      (DockerPushBat.set_var "DOCKER_USERNAME" "diciky" env))
                   "CONFIRM" = line).
    { unfold DockerPushBat.expand, DockerPushBat.set_p, DockerPushBat.set_var.
      case_bool_decide as Hempty.
      - subst line. rewrite lookup_insert_ne by done. by rewrite Henv.
      - by rewrite lookup_insert_eq. }
    rewrite HC, bat_confirmed_affirmative. unfold affirmative.
    rewrite bool_decide_false by done. cbn [negb snd].
    unfold DockerPushBat.expand, DockerPushBat.set_var.
    by rewrite lookup_insert_eq.
Qed.

(** Witness for X10: the answer [yes] in a new console. *)
Lemma abort_paths_witness :
  last (DockerPushSh.run "yes") = Some (Exit 1) ∧
  last (DockerPushBat.run ∅ "yes").2 = Some ExitB.
Proof.
  assert (Hno : ∀ (c : ascii) (l : list ascii),
            forallb (fun x => negb (bool_decide (x = c))) l = true → c ∉ l).
  { intros c l Hl Hin. apply list_elem_of_In in Hin.
    rewrite forallb_forall in Hl. specialize (Hl c Hin).
    by rewrite bool_decide_true in Hl. }
  destruct (abort_paths "yes" ∅) as [Hsh Hbat].
  rewrite Hsh, Hbat.
  - split; reflexivity.
  - by intros [?|?].
  - by apply Hno.
  - reflexivity.
  - split; by apply Hno.
  - by intros [?|?].
Defined.

End PublishMore.

(** ** The patch script: what it leaves alone and what it catches *)
Section PatchMore.
Import Regex FixApiPath.

(** X11: the script creates and deletes nothing and touches one file
    only: the host has the same containers after the run, each
    container the same files, each file the same number of lines, and
    every file other than the template of [tgbot-app] is unchanged. *)
Theorem patch_script_frame (host : gmap string (gmap string (list string))) :
  dom (script host).1 = dom host ∧
  ∀ c fs, host !! c = Some fs →
    ∃ fs', (script host).1 !! c = Some fs' ∧ dom fs' = dom fs ∧
      ∀ p ls, fs !! p = Some ls →
        ∃ ls', fs' !! p = Some ls' ∧ length ls' = length ls ∧
               (c ≠ container ∨ p ≠ template → ls' = ls).
Proof.
  unfold script. destruct (host !! container) as [fs0|] eqn:E; cbn [fst].
  - split.
    + apply dom_insert_lookup_L. eauto.
    + intros c fs Hc. destruct (decide (c = container)) as [->|Hne].
      * rewrite lookup_insert_eq.
        assert (fs = fs0) as -> by congruence.
        exists (sed_i template fs0). split; [done|].
        unfold sed_i. destruct (fs0 !! template) as [lines|] eqn:Ef.
        -- split; [apply dom_insert_lookup_L; eauto|].
           intros p ls Hp. destruct (decide (p = template)) as [->|Hp'].
           ++ rewrite lookup_insert_eq.
              assert (ls = lines) as -> by congruence.
              eexists. split; [done|]. split; [by rewrite length_fmap|].
              by intros [?|?].
           ++ rewrite lookup_insert_ne by done. eauto.
        -- split; [done|]. eauto.
      * rewrite lookup_insert_ne by done. exists fs. eauto 10.
  - split; [done|]. intros c fs Hc. exists fs. eauto 10.
Qed.

(** Witness for X11, on the example host. *)
Lemma patch_script_frame_witness :
  ∃ fs', (script example_host).1 !! container = Some fs' ∧
         dom fs' = dom example_fs.
Proof.
  destruct (proj2 (patch_script_frame example_host) container example_fs eq_refl)
    as (fs' & H1 & H2 & _).
  exists fs'. by split.
Defined.


End PatchMore.

(** ** The patch script on a text template *)
Section PatchText.
Import CharRegex FixApiPathText.

Lemma star_dot_some t : is_Some (match_here [Star Dot] t).
Proof.
  induction t as [|c t [n IH]]; [by eexists|].
  cbn in *. destruct (scalar c); [|by eexists].
  rewrite IH. by eexists.
Qed.

Lemma star_dot_text t :
  Forall (fun c => scalar c = true) t → match_here [Star Dot] t = Some (length t).
Proof.
  induction 1 as [|c t Hc _ IH]; [done|].
  cbn in *. by rewrite Hc, IH.
Qed.

Lemma ones_star_some (P : list atom) u t :
  Forall2 (fun a c => atom_matches a c = true) P u →
  is_Some (match_here ((One <$> P) ++ [Star Dot]) (u ++ t)).
Proof.
  induction 1 as [|a c P u Hac _ [n IH]].
  - apply star_dot_some.
  - cbn [fmap list_fmap app match_here]. rewrite Hac.
    change (list_fmap atom item One P) with (One <$> P).
    rewrite IH. by eexists.
Qed.

Lemma ones_star_text (P : list atom) u t :
  Forall2 (fun a c => atom_matches a c = true) P u →
  Forall (fun c => scalar c = true) t →
  match_here ((One <$> P) ++ [Star Dot]) (u ++ t) = Some (length (u ++ t)).
Proof.
  intros HP Ht. induction HP as [|a c P u Hac _ IH].
  - by apply star_dot_text.
  - cbn [fmap list_fmap app match_here]. rewrite Hac.
    change (list_fmap atom item One P) with (One <$> P).
    by rewrite IH.
Qed.

Lemma ones_star_inv (P : list atom) l :
  is_Some (match_here ((One <$> P) ++ [Star Dot]) l) →
  ∃ u t, l = u ++ t ∧ Forall2 (fun a c => atom_matches a c = true) P u.
Proof.
  revert l. induction P as [|a P IH]; intros l [n H].
  - exists [], l. by split.
  - cbn [fmap list_fmap app match_here] in H.
    destruct l as [|c l]; [done|].
    destruct (atom_matches a c) eqn:Hac; [|done].
    destruct (match_here _ l) as [m|] eqn:E; [|done].
    destruct (IH l) as (u & t & -> & HP); [by eexists|].
    exists (c :: u), t. split; [done|]. by constructor.
Qed.

Lemma search_re_shape_text :
  search_re =
  (One <$> (atom_of <$> codes "axios.defaults.baseURL = ")) ++ [Star Dot].
Proof. reflexivity. Qed.

(** The pattern matches at the head of a text exactly when the text
    begins with the assignment. *)
Lemma match_assignment l :
  is_Some (match_here search_re l) ↔ assignment_at l.
Proof.
  rewrite search_re_shape_text. split.
  - intros H. apply ones_star_inv in H as (u & t & -> & HP).
    let atoms := eval vm_compute in (atom_of <$> codes "axios.defaults.baseURL = ") in
    change (atom_of <$> codes "axios.defaults.baseURL = ") with atoms in HP.
    repeat match goal with
    | H : Forall2 _ (_ :: _) _ |- _ =>
        apply Forall2_cons_inv_l in H as (? & ? & ? & H & ->)
    | H : Forall2 _ [] _ |- _ => apply Forall2_nil_inv_l in H as ->
    end.
    cbn [atom_matches] in *.
    repeat match goal with
    | H : bool_decide _ = true |- _ => apply bool_decide_eq_true in H; subst
    end.
    eexists _, _, t. split; [|split]; last reflexivity; assumption.
  - intros (x & y & tail & Hx & Hy & ->).
    change (codes "axios" ++ x :: codes "defaults" ++ y :: codes "baseURL = " ++ tail)
      with ((codes "axios" ++ x :: codes "defaults" ++ y :: codes "baseURL = ")
              ++ tail).
    apply ones_star_some.
    let atoms := eval vm_compute in (atom_of <$> codes "axios.defaults.baseURL = ") in
    change (atom_of <$> codes "axios.defaults.baseURL = ") with atoms.
    let u := eval vm_compute in (codes "axios" ++ x :: codes "defaults" ++ y :: codes "baseURL = ") in
    change (codes "axios" ++ x :: codes "defaults" ++ y :: codes "baseURL = ") with u.
    repeat (constructor; [first [assumption|by apply bool_decide_eq_true]|]).
    constructor.
Qed.

Lemma match_text_to_end l n :
  Forall (fun c => scalar c = true) l →
  match_here search_re l = Some n → n = length l.
Proof.
  intros Hl H.
  destruct (ones_star_inv (atom_of <$> codes "axios.defaults.baseURL = ") l)
    as (u & t & -> & HP); [rewrite <- search_re_shape_text; by eexists|].
  rewrite search_re_shape_text, (ones_star_text _ u t HP) in H.
  - congruence.
  - by apply Forall_app in Hl as [_ ?].
Qed.

Lemma skip_rest_text s b : subst_g search_re replacement s (length s) b = [].
Proof.
  revert b. induction s as [|c s IH]; intros b; [done|].
  cbn [length subst_g]. apply IH.
Qed.

Lemma patch_cons_match c s :
  Forall (fun c => scalar c = true) (c :: s) →
  is_Some (match_here search_re (c :: s)) →
  patch_line (c :: s) = replacement.
Proof.
  intros Ht [n E]. unfold patch_line. cbn [subst_g]. rewrite E.
  apply match_text_to_end in E as ->; [|done]. cbn [length].
  rewrite skip_rest_text. apply app_nil_r.
Qed.

Lemma patch_cons_none c s :
  match_here search_re (c :: s) = None →
  patch_line (c :: s) = c :: patch_line s.
Proof. intros E. unfold patch_line. cbn [subst_g]. by rewrite E. Qed.

Lemma text_line_scalar line :
  text_line line → Forall (fun c => scalar c = true) line.
Proof. intros H. eapply Forall_impl; [exact H|]. by intros c [? _]. Qed.

(** The leftmost assignment of a text line and all that follows it
    are replaced; what precedes is kept. *)
Lemma patch_leftmost pre rest :
  text_line (pre ++ rest) → assignment_at rest →
  (∀ p q, pre = p ++ q → q ≠ [] → ¬ assignment_at (q ++ rest)) →
  patch_line (pre ++ rest) = pre ++ replacement.
Proof.
  induction pre as [|c pre IH]; intros Ht Ha Hleft.
  - cbn [app] in *. destruct rest as [|c s].
    + destruct Ha as (x & y & tail & _ & _ & Heq). discriminate Heq.
    + apply patch_cons_match; [by apply text_line_scalar|].
      by apply match_assignment.
  - cbn [app]. rewrite patch_cons_none.
    + f_equal. apply IH; [by inversion Ht|done|].
      intros p q -> Hq. by apply (Hleft (c :: p) q).
    + destruct (match_here search_re (c :: pre ++ rest)) as [n|] eqn:E; [|done].
      destruct (Hleft [] (c :: pre) eq_refl); [done|].
      apply match_assignment. by eexists.
Qed.

(** A line without the assignment is left as it is. *)
Lemma patch_none line :
  (∀ pre rest, line = pre ++ rest → ¬ assignment_at rest) →
  patch_line line = line.
Proof.
  induction line as [|c s IH]; intros Hno; [done|].
  rewrite patch_cons_none.
  - f_equal. apply IH. intros pre rest -> Ha.
    by apply (Hno (c :: pre) rest).
  - destruct (match_here search_re (c :: s)) as [n|] eqn:E; [|done].
    destruct (Hno [] (c :: s) eq_refl).
    apply match_assignment. by eexists.
Qed.

Lemma search_body_none re line :
  search_body re line = false →
  ∀ pre rest, line = pre ++ rest → match_here re rest = None.
Proof.
  intros Hs pre. revert line Hs.
  induction pre as [|c pre IH]; intros line Hs rest ->.
  - cbn [app] in Hs.
    destruct rest; cbn [search_body] in Hs;
      by destruct (match_here re _).
  - cbn [app search_body] in Hs.
    destruct (match_here re (c :: pre ++ rest)); [done|].
    by apply (IH (pre ++ rest)).
Qed.

Lemma search_none line :
  search_body search_re line = false →
  ∀ pre rest, line = pre ++ rest → ¬ assignment_at rest.
Proof.
  intros Hs pre rest Hl Ha.
  apply match_assignment in Ha as [n Hn].
  by rewrite (search_body_none _ _ Hs pre rest Hl) in Hn.
Qed.

(** C7: with the container running and the template in place, the
    script rewrites the template file, and nothing else, line by line.
    In a line of text the leftmost text of the form [axios], one
    character, [defaults], one character, [baseURL = ] and all that
    follows it up to the end of the line are replaced by the assignment
    of the empty string, [axios.defaults.baseURL = ] followed by two
    double quotes and a semicolon; what precedes in the line is kept.
    A line without such text is unchanged. *)
Theorem patch_script_rewrites_text
    (host : gmap string (gmap string (list (list N))))
    (fs : gmap string (list (list N))) (lines : list (list N))
    (Hrun : host !! container = Some fs)
    (Hfile : fs !! template = Some lines) :
  (script host).1 =
    <[container := <[template := patch_line <$> lines]> fs]> host ∧
  ∀ line, text_line line →
    (∀ pre rest, line = pre ++ rest → assignment_at rest →
       (∀ p q, pre = p ++ q → q ≠ [] → ¬ assignment_at (q ++ rest)) →
       patch_line line =
       pre ++ codes "axios.defaults.baseURL = " ++ [34; 34; 59]%N) ∧
    ((∀ pre rest, line = pre ++ rest → ¬ assignment_at rest) →
     patch_line line = line).
Proof.
  split.
  - unfold script, sed_i. by rewrite Hrun, Hfile.
  - intros line Ht. split.
    + intros pre rest -> Ha Hleft. by apply patch_leftmost.
    + apply patch_none.
Qed.

(** Witness for C7: the example host, and its line with U+3002. *)
Lemma patch_script_rewrites_text_witness :
  (script example_host).1 =
    {[ container :=
         {[ template :=
              [ codes "<script>";
                codes "    axios.defaults.baseURL = " ++ [34; 34; 59]%N;
                codes "axios.defaults.baseURL = " ++ [34; 34; 59]%N ] ]} ]} ∧
  patch_line (codes "axios" ++ 12290%N :: codes "defaults.baseURL = 1")
  = [ 97; 120; 105; 111; 115; 46; 100; 101; 102; 97; 117; 108; 116; 115; 46;
      98; 97; 115; 101; 85; 82; 76; 32; 61; 32; 34; 34; 59 ]%N.
Proof.
  destruct (patch_script_rewrites_text example_host
              {[ template := example_lines ]} example_lines eq_refl eq_refl)
    as [Hs Hl].
  split.
  - rewrite Hs. vm_compute. reflexivity.
  - refine (proj1 (Hl (codes "axios" ++ 12290%N :: codes "defaults.baseURL = 1") _)
              [] _ eq_refl _ _).
    + repeat (constructor; [by split|]). constructor.
    + exists 12290%N, 46%N, (codes "1"). by repeat split.
    + intros p q Hpq Hq. symmetry in Hpq.
      apply app_eq_nil in Hpq as [_ ->]. by destruct Hq.
Defined.

(** X12: the script is a no-op on a host it has nothing to patch on:
    when the container is not running, when the template is missing, or
    when the template is text in which no line holds, at any place,
    [axios], one character, [defaults], one character, [baseURL = ],
    the host after the run is the host before it. *)
Theorem patch_script_noop_text
    (host : gmap string (gmap string (list (list N))))
    (Hnone : ∀ fs lines, host !! container = Some fs →
               fs !! template = Some lines →
               Forall (fun line =>
                         text_line line ∧
                         ∀ pre rest, line = pre ++ rest → ¬ assignment_at rest)
                      lines) :
  (script host).1 = host.
Proof.
  unfold script. destruct (host !! container) as [fs|] eqn:E; cbn [fst]; [|done].
  apply insert_id. rewrite E. f_equal. symmetry.
  unfold sed_i. destruct (fs !! template) as [lines|] eqn:Ef; [|done].
  apply insert_id. rewrite Ef. f_equal. symmetry.
  specialize (Hnone fs lines eq_refl Ef). clear Ef.
  induction Hnone as [|l ls [_ Hl] _ IH]; [done|].
  cbn [fmap list_fmap]. f_equal; [by apply patch_none|apply IH].
Qed.

(** Witness for X12: a template without the assignment. *)
Lemma patch_script_noop_text_witness : (script plain_host).1 = plain_host.
Proof.
  apply (patch_script_noop_text plain_host). intros fs lines Hfs Hlines.
  unfold plain_host in Hfs. rewrite lookup_singleton_eq in Hfs.
  injection Hfs as <-.
  rewrite lookup_singleton_eq in Hlines. injection Hlines as <-.
  repeat (constructor;
          [split; [repeat (constructor; [by split|]); constructor
                  |by apply search_none]|]).
  constructor.
Defined.

End PatchText.
